(** * pymongo.max_staleness_selectors

    A shallow embedding of [pymongo/max_staleness_selectors.py] and the
    properties of its functions:

      - [_validate_max_staleness]  the bound validator,
      - [_with_primary]            the filter used when a primary is known,
      - [_no_primary]              the filter used when no primary is known,
      - [select]                   the dispatcher.

    The functions are embedded twice: over selections as values, where most
    properties are stated, and over a store of Python objects ([Module
    Store]), where a call allocates and updates objects and the input's
    objects can be compared before and after.  The second embedding is
    proved to compute what the first computes.

    Times (seconds) are Python numbers; they are modelled as exact integers
    ([Z]); the rounding of Python floats is not modelled.  An exception is a
    value of [exn], and a Python function that may raise returns a
    [result]. *)

From stdpp Require Import base list strings pretty gmap.
From Stdlib Require Import ZArith Lia.

Local Open Scope Z_scope.

(** ** Exceptions *)

(** [ConfigurationError] carries its message.  [AssertionError] is what a
    failed [assert] raises.  [TypeError] stands for the use of a reference
    that does not hold an object of the expected class; it arises in the
    store embedding only. *)
Inductive exn : Type :=
  | ConfigurationError (msg : string)
  | AssertionError
  | TypeError.

Inductive result (A : Type) : Type :=
  | Return (a : A)
  | Raise (e : exn).
Arguments Return {A} a.
Arguments Raise {A} e.

Global Instance result_ret : MRet result := @Return.
Global Instance result_bind : MBind result := λ A B k r,
  match r with
  | Return a => k a
  | Raise e => Raise e
  end.

(** [raises_ConfigurationError r]: the call ended in a [ConfigurationError],
    whatever its message. *)
Definition raises_ConfigurationError {A : Type} (r : result A) : Prop :=
  ∃ msg, r = Raise (ConfigurationError msg).

(** ** Data model *)

(** Modelled from the spec: [pymongo.server_type.SERVER_TYPE] is not part of
    the sources; the variants are those of the spec's data model. *)
Inductive SERVER_TYPE : Type :=
  | Unknown
  | RSPrimary
  | RSSecondary
  | RSArbiter
  | RSOther
  | RSGhost.

Global Instance SERVER_TYPE_eq_dec : EqDecision SERVER_TYPE.
Proof. solve_decision. Defined.

(** Modelled from the spec: [ServerDescription] is not part of the sources.
    The fields are the ones the selectors read, and the address is the
    member's identity. *)
Record ServerDescription : Type := {
  address : string * Z;
  server_type : SERVER_TYPE;
  last_update_time : Z;
  last_write_date : Z;
  idle_write_period : Z
}.

Global Instance ServerDescription_eq_dec : EqDecision ServerDescription.
Proof. solve_decision. Defined.

(** Modelled from the spec: [pymongo.server_selectors.Selection] is not part
    of the sources.  It holds the members, the deployment's heartbeat
    frequency and the cached primary, if there is one. *)
Record Selection : Type := {
  server_descriptions : list ServerDescription;
  heartbeat_frequency : Z;
  primary : option ServerDescription
}.

(** Modelled from the spec: [Selection.with_server_descriptions], the
    constructor of a new [Selection] with another member list and the same
    heartbeat frequency (and the same cached primary). *)
Definition with_server_descriptions
    (selection : Selection) (sds : list ServerDescription) : Selection :=
  {| server_descriptions := sds;
     heartbeat_frequency := heartbeat_frequency selection;
     primary := primary selection |}.

(** Modelled from the spec: the two accessors
    [Selection.secondary_with_max_last_write_date] and
    [Selection.secondary_with_max_last_update_time] are not part of the
    sources.  They are an interface here; [greatest_secondary] is what the
    spec says of them, and it leaves open which member is returned when
    several are greatest. *)
Class SelectionMethods : Type := {
  secondary_with_max_last_write_date : Selection → option ServerDescription;
  secondary_with_max_last_update_time : Selection → option ServerDescription
}.

Definition greatest_secondary (key : ServerDescription → Z)
    (selection : Selection) (r : option ServerDescription) : Prop :=
  match r with
  | None =>
      ∀ s, s ∈ server_descriptions selection → server_type s ≠ RSSecondary
  | Some m =>
      m ∈ server_descriptions selection ∧
      server_type m = RSSecondary ∧
      ∀ s, s ∈ server_descriptions selection →
           server_type s = RSSecondary → key s ≤ key m
  end.

Class SelectionMethodsSpec (M : SelectionMethods) : Prop := {
  smax_greatest : ∀ selection,
    greatest_secondary last_write_date selection
      (secondary_with_max_last_write_date selection);
  srecent_greatest : ∀ selection,
    greatest_secondary last_update_time selection
      (secondary_with_max_last_update_time selection)
}.

(** Two implementations of the interface.  Python's [max(iterable, key=...)]
    keeps the first of several greatest elements; [max_last] keeps the last
    one. *)
Definition max_first (key : ServerDescription → Z)
    (l : list ServerDescription) : option ServerDescription :=
  match l with
  | [] => None
  | x :: l' =>
      Some (foldl (λ best s, if key best <? key s then s else best) x l')
  end.

Definition max_last (key : ServerDescription → Z)
    (l : list ServerDescription) : option ServerDescription :=
  match l with
  | [] => None
  | x :: l' =>
      Some (foldl (λ best s, if key best <=? key s then s else best) x l')
  end.

Definition secondaries (selection : Selection) : list ServerDescription :=
  filter (λ s, server_type s = RSSecondary) (server_descriptions selection).

Definition first_greatest : SelectionMethods :=
  {| secondary_with_max_last_write_date selection :=
       max_first last_write_date (secondaries selection);
     secondary_with_max_last_update_time selection :=
       max_first last_update_time (secondaries selection) |}.

Definition last_greatest : SelectionMethods :=
  {| secondary_with_max_last_write_date selection :=
       max_last last_write_date (secondaries selection);
     secondary_with_max_last_update_time selection :=
       max_last last_update_time (secondaries selection) |}.

(** The first of the greatest for SMax's accessor as Python's [max] has it,
    and the last of the greatest for Srecent's: [mixed_greatest] differs
    from [last_greatest] in the choice of SMax only. *)
Definition mixed_greatest : SelectionMethods :=
  {| secondary_with_max_last_write_date selection :=
       max_first last_write_date (secondaries selection);
     secondary_with_max_last_update_time selection :=
       max_last last_update_time (secondaries selection) |}.

(** ** The selectors *)

(** [_validate_max_staleness], lines 34-43.  The message is the format
    string with its three [%d] filled in. *)
Definition _validate_max_staleness
    (max_staleness heartbeat_frequency idle_write_period : Z) : result unit :=
  if max_staleness <? heartbeat_frequency + idle_write_period then
    Raise (ConfigurationError
      ("maxStalenessSeconds must be at least heartbeatFrequencyMS +"
       +:+ " " +:+ pretty idle_write_period
       +:+ " seconds. maxStalenessSeconds is set to "
       +:+ pretty max_staleness
       +:+ ", heartbeatFrequencyMS is set to "
       +:+ pretty (heartbeat_frequency * 1000) +:+ "."))
  else Return ().

(** [_with_primary], lines 46-73.  [sds] starts empty and grows by
    [append] while the loop runs over the members. *)
Definition _with_primary (max_staleness : Z) (selection : Selection)
    : result Selection :=
  match primary selection with
  | None => Raise AssertionError
  | Some primary =>
      _validate_max_staleness max_staleness
        (heartbeat_frequency selection) (idle_write_period primary) ;;
      let sds :=
        foldl (λ sds s,
          if decide (server_type s = RSSecondary) then
            let staleness :=
              (last_update_time s - last_write_date s) -
              (last_update_time primary - last_write_date primary) +
              heartbeat_frequency selection in
            if staleness <=? max_staleness then sds ++ [s] else sds
          else sds ++ [s])
          [] (server_descriptions selection) in
      Return (with_server_descriptions selection sds)
  end.

(** Python's truth value of [max_staleness]. *)
Definition truthy (max_staleness : option Z) : bool :=
  match max_staleness with
  | None => false
  | Some n => negb (n =? 0)
  end.

Section Selectors.
Context {M : SelectionMethods}.

(** [_no_primary], lines 76-109. *)
Definition _no_primary (max_staleness : Z) (selection : Selection)
    : result Selection :=
  match secondary_with_max_last_write_date selection with
  | None => Return (with_server_descriptions selection [])
  | Some smax =>
      match secondary_with_max_last_update_time selection with
      | None => Raise AssertionError
      | Some srecent =>
          _validate_max_staleness max_staleness
            (heartbeat_frequency selection) (idle_write_period srecent) ;;
          let sds :=
            foldl (λ sds s,
              if decide (server_type s = RSSecondary) then
                let staleness :=
                  last_write_date smax - last_write_date s +
                  heartbeat_frequency selection in
                if staleness <=? max_staleness then sds ++ [s] else sds
              else sds ++ [s])
              [] (server_descriptions selection) in
          Return (with_server_descriptions selection sds)
      end
  end.

(** [select], lines 112-120.  [max_staleness] is [None] when unset;
    [not max_staleness] holds of [None] and of the number zero. *)
Definition select (max_staleness : option Z) (selection : Selection)
    : result Selection :=
  match max_staleness with
  | None => Return selection
  | Some n =>
      if n =? 0 then Return selection
      else
        match primary selection with
        | Some _ => _with_primary n selection
        | None => _no_primary n selection
        end
  end.
End Selectors.

(** ** The selectors over a store of Python objects

    The functions above treat a [Selection] as a value.  In Python a
    selection and the list of its members are objects that other code holds
    references to, and [sds] is a list object that [append] updates in
    place.  The functions are embedded a second time over an explicit store
    of objects, with references as locations: a selection object refers to
    its list of members.  Server descriptions are values in both
    embeddings, since nothing in this module assigns to them. *)
Module Store.
Definition loc : Type := positive.

Inductive object : Type :=
  | ListObject (items : list ServerDescription)
  | SelectionObject (server_descriptions : loc) (heartbeat_frequency : Z)
      (primary : option ServerDescription).

Abbreviation store := (gmap loc object).

(** A computation reads and updates the store, and returns or raises. *)
Definition action (A : Type) : Type := store → result (A * store).

Global Instance action_ret : MRet action := λ A a σ, Return (a, σ).
Global Instance action_bind : MBind action := λ A B k c σ,
  match c σ with
  | Return (a, σ') => k a σ'
  | Raise e => Raise e
  end.

Definition raise {A : Type} (e : exn) : action A := λ _, Raise e.

Definition lift {A : Type} (r : result A) : action A := λ σ,
  match r with
  | Return a => Return (a, σ)
  | Raise e => Raise e
  end.

(** A new object gets a location that is not in use. *)
Definition alloc (o : object) : action loc := λ σ,
  let l := fresh (dom σ) in Return (l, <[l := o]> σ).

Definition load (l : loc) : action object := λ σ,
  match σ !! l with
  | Some o => Return (o, σ)
  | None => Raise TypeError
  end.

(** [list.append]: the list object at [l] is updated in place. *)
Definition append (l : loc) (s : ServerDescription) : action unit := λ σ,
  match σ !! l with
  | Some (ListObject items) => Return ((), <[l := ListObject (items ++ [s])]> σ)
  | _ => Raise TypeError
  end.

Definition items_of (l : loc) : action (list ServerDescription) :=
  o ← load l;
  match o with
  | ListObject items => mret items
  | SelectionObject _ _ _ => raise TypeError
  end.

(** The attributes of a selection object. *)
Definition get_server_descriptions (selection : loc) : action loc :=
  o ← load selection;
  match o with
  | SelectionObject sds _ _ => mret sds
  | ListObject _ => raise TypeError
  end.

Definition get_heartbeat_frequency (selection : loc) : action Z :=
  o ← load selection;
  match o with
  | SelectionObject _ hb _ => mret hb
  | ListObject _ => raise TypeError
  end.

Definition get_primary (selection : loc) : action (option ServerDescription) :=
  o ← load selection;
  match o with
  | SelectionObject _ _ p => mret p
  | ListObject _ => raise TypeError
  end.

(** The selection object at [selection], read as a value. *)
Definition snapshot (selection : loc) : action Selection :=
  sds ← get_server_descriptions selection;
  items ← items_of sds;
  hb ← get_heartbeat_frequency selection;
  p ← get_primary selection;
  mret {| server_descriptions := items;
          heartbeat_frequency := hb;
          primary := p |}.

(** [for s in items: body]. The members are read when the loop starts;
    the loops of this module append to the new list [sds] only. *)
Fixpoint for_each (items : list ServerDescription)
    (body : ServerDescription → action unit) : action unit :=
  match items with
  | [] => mret ()
  | s :: items => body s;; for_each items body
  end.

(** Modelled from the spec: [Selection.with_server_descriptions] makes a
    new selection object that refers to the list [sds]. *)
Definition with_server_descriptions (selection sds : loc) : action loc :=
  hb ← get_heartbeat_frequency selection;
  p ← get_primary selection;
  alloc (SelectionObject sds hb p).

(** [_with_primary], lines 46-73. *)
Definition _with_primary (max_staleness : Z) (selection : loc) : action loc :=
  primary ← get_primary selection;
  match primary with
  | None => raise AssertionError
  | Some primary =>
      hb ← get_heartbeat_frequency selection;
      lift (_validate_max_staleness max_staleness hb
              (idle_write_period primary));;
      sds ← alloc (ListObject []);
      members ← get_server_descriptions selection;
      items ← items_of members;
      for_each items (λ s,
        if decide (server_type s = RSSecondary) then
          hb ← get_heartbeat_frequency selection;
          let staleness :=
            (last_update_time s - last_write_date s) -
            (last_update_time primary - last_write_date primary) + hb in
          if staleness <=? max_staleness then append sds s else mret ()
        else append sds s);;
      with_server_descriptions selection sds
  end.

Section StoreSelectors.
Context {M : SelectionMethods}.

(** Modelled from the spec: the accessors read the selection object and
    return what the interface returns on its value. *)
Definition secondary_with_max_last_write_date (selection : loc)
    : action (option ServerDescription) :=
  sel ← snapshot selection;
  mret (secondary_with_max_last_write_date sel).

Definition secondary_with_max_last_update_time (selection : loc)
    : action (option ServerDescription) :=
  sel ← snapshot selection;
  mret (secondary_with_max_last_update_time sel).

(** [_no_primary], lines 76-109. *)
Definition _no_primary (max_staleness : Z) (selection : loc) : action loc :=
  smax ← secondary_with_max_last_write_date selection;
  match smax with
  | None =>
      sds ← alloc (ListObject []);
      with_server_descriptions selection sds
  | Some smax =>
      srecent ← secondary_with_max_last_update_time selection;
      match srecent with
      | None => raise AssertionError
      | Some srecent =>
          sds ← alloc (ListObject []);
          hb ← get_heartbeat_frequency selection;
          lift (_validate_max_staleness max_staleness hb
                  (idle_write_period srecent));;
          members ← get_server_descriptions selection;
          items ← items_of members;
          for_each items (λ s,
            if decide (server_type s = RSSecondary) then
              hb ← get_heartbeat_frequency selection;
              let staleness :=
                last_write_date smax - last_write_date s + hb in
              if staleness <=? max_staleness then append sds s
              else mret ()
            else append sds s);;
          with_server_descriptions selection sds
      end
  end.

(** [select], lines 112-120. *)
Definition select (max_staleness : option Z) (selection : loc)
    : action loc :=
  match max_staleness with
  | None => mret selection
  | Some n =>
      if n =? 0 then mret selection
      else
        primary ← get_primary selection;
        match primary with
        | Some _ => _with_primary n selection
        | None => _no_primary n selection
        end
  end.
End StoreSelectors.

(** The value of the selection object at [l], when [l] holds a selection
    object that refers to a list object. *)
Definition selection_at (σ : store) (l : loc) : option Selection :=
  match σ !! l with
  | Some (SelectionObject sds hb p) =>
      match σ !! sds with
      | Some (ListObject items) =>
          Some {| server_descriptions := items;
                  heartbeat_frequency := hb;
                  primary := p |}
      | _ => None
      end
  | _ => None
  end.
End Store.

(** ** Definitions for the statements *)

(** The test of the known-primary loop and the test of the no-primary loop. *)
Definition keeps_with_primary (m hb : Z) (P s : ServerDescription) : Prop :=
  server_type s = RSSecondary →
  (last_update_time s - last_write_date s) -
  (last_update_time P - last_write_date P) + hb ≤ m.

Definition keeps_no_primary (m hb : Z) (smax s : ServerDescription) : Prop :=
  server_type s = RSSecondary →
  last_write_date smax - last_write_date s + hb ≤ m.

Global Instance keeps_with_primary_dec m hb P s :
  Decision (keeps_with_primary m hb P s).
Proof. unfold keeps_with_primary. apply _. Defined.

Global Instance keeps_no_primary_dec m hb smax s :
  Decision (keeps_no_primary m hb smax s).
Proof. unfold keeps_no_primary. apply _. Defined.

(** The store after a call that returns the selection value [out]: a new
    list object with the members of [out], and a new selection object that
    refers to it. *)
Definition returned (σ : Store.store) (out : Selection)
    : Store.loc * Store.store :=
  let sds := fresh (dom σ) in
  let σ1 := <[sds := Store.ListObject (server_descriptions out)]> σ in
  let l := fresh (dom σ1) in
  (l, <[l := Store.SelectionObject sds (heartbeat_frequency out) (primary out)]> σ1).

(** [refines r σ r']: the run [r'] from the store [σ] raises what the value
    computation [r] raises, or returns what [r] returns, as new objects. *)
Definition refines (r : result Selection) (σ : Store.store)
    (r' : result (Store.loc * Store.store)) : Prop :=
  r' = match r with
       | Return out => Return (returned σ out)
       | Raise e => Raise e
       end.



Global Instance result_fmap : FMap result := λ A B f r,
  match r with
  | Return a => Return (f a)
  | Raise e => Raise e
  end.

(** * Scenarios

    The deployments of the worked examples: a heartbeat every 10 seconds and
    an idle write period of 10 seconds. *)

Definition member (port : Z) (type : SERVER_TYPE)
    (last_update_time last_write_date idle_write_period : Z)
    : ServerDescription :=
  {| address := ("db.example.com", port);
     server_type := type;
     last_update_time := last_update_time;
     last_write_date := last_write_date;
     idle_write_period := idle_write_period |}.

(** A primary observed 1 second after its last write, a secondary observed
    5 seconds after its last write, one observed 15 seconds after, and an
    arbiter. *)
Definition the_primary : ServerDescription := member 27017 RSPrimary 101 100 10.
Definition near_secondary : ServerDescription := member 27018 RSSecondary 101 96 10.
Definition far_secondary : ServerDescription := member 27019 RSSecondary 101 86 10.
Definition the_arbiter : ServerDescription := member 27020 RSArbiter 101 0 10.

Definition with_primary_selection : Selection :=
  {| server_descriptions :=
       [the_primary; near_secondary; far_secondary; the_arbiter];
     heartbeat_frequency := 10;
     primary := Some the_primary |}.

(** No primary: secondary A wrote at time 100 and secondary B at time 70. *)
Definition secondary_A : ServerDescription := member 27018 RSSecondary 101 100 10.
Definition secondary_B : ServerDescription := member 27019 RSSecondary 101 70 10.

Definition no_primary_selection : Selection :=
  {| server_descriptions := [secondary_A; secondary_B; the_arbiter];
     heartbeat_frequency := 10;
     primary := None |}.

(** No primary and no secondary: only the arbiter is left. *)
Definition arbiter_only_selection : Selection :=
  {| server_descriptions := [the_arbiter];
     heartbeat_frequency := 10;
     primary := None |}.

(** Two secondaries observed at the same time, with different idle write
    periods. *)
Definition tied_A : ServerDescription := member 27018 RSSecondary 101 100 10.
Definition tied_B : ServerDescription := member 27019 RSSecondary 101 100 100.

Definition tied_selection : Selection :=
  {| server_descriptions := [tied_A; tied_B];
     heartbeat_frequency := 10;
     primary := None |}.

(** The objects of [with_primary_selection]: the list of members at
    location 1 and the selection at location 2. *)
Definition with_primary_store : Store.store :=
  <[2%positive := Store.SelectionObject 1%positive 10 (Some the_primary)]>
    (<[1%positive := Store.ListObject
         [the_primary; near_secondary; far_secondary; the_arbiter]]> ∅).

(** * Properties *)

(** ** The result monad *)

Lemma bind_Return {A B : Type} (r : result A) (k : A → result B) (a : A) :
  r = Return a → r ≫= k = k a.
Proof. by intros ->. Qed.

Lemma bind_raises {A B : Type} (r : result A) (k : A → result B) :
  raises_ConfigurationError r → raises_ConfigurationError (r ≫= k).
Proof. intros [msg ->]. by exists msg. Qed.

(** ** The bound validator *)

Lemma validate_raises_iff (m hb idle : Z) :
  raises_ConfigurationError (_validate_max_staleness m hb idle) ↔ m < hb + idle.
Proof.
  unfold _validate_max_staleness.
  destruct (Z.ltb_spec m (hb + idle)) as [Hlt | Hge].
  - split; [done | intros _; eexists; reflexivity].
  - split; [intros [msg Hmsg]; discriminate | lia].
Qed.

Lemma validate_returns_iff (m hb idle : Z) :
  _validate_max_staleness m hb idle = Return () ↔ hb + idle ≤ m.
Proof.
  unfold _validate_max_staleness.
  destruct (Z.ltb_spec m (hb + idle)) as [Hlt | Hge].
  - split; [discriminate | lia].
  - split; [done | done].
Qed.

Lemma validate_total (m hb idle : Z) :
  _validate_max_staleness m hb idle = Return () ∨
  raises_ConfigurationError (_validate_max_staleness m hb idle).
Proof.
  destruct (Z.lt_ge_cases m (hb + idle)) as [Hlt | Hge].
  - right. by apply validate_raises_iff.
  - left. by apply validate_returns_iff.
Qed.

(** ** The loops *)

(** Both loops append to [sds] the members that pass a test, in order:
    they compute [filter]. *)
Lemma append_loop_filter (keep : ServerDescription → Prop)
    `{!∀ s, Decision (keep s)}
    (body : list ServerDescription → ServerDescription → list ServerDescription) :
  (∀ sds s, body sds s = if decide (keep s) then sds ++ [s] else sds) →
  ∀ l sds, foldl body sds l = sds ++ filter keep l.
Proof.
  intros Hbody. induction l as [| s l IH]; intros sds; simpl.
  - by rewrite app_nil_r.
  - rewrite IH, Hbody, filter_cons.
    destruct (decide (keep s)); [by rewrite <- app_assoc | done].
Qed.

(** The test of a loop body against [keeps_with_primary] or
    [keeps_no_primary]: [keeps_secondary] for a secondary, whose staleness
    is compared with the bound, and [keeps_other] for any other member. *)
Ltac keeps_secondary Hs :=
  match goal with
  | |- context [?x <=? ?m] => destruct (Z.leb_spec x m)
  end;
  let Hk := fresh "Hk" in
  destruct (decide _) as [Hk | Hk]; try done;
  first [exfalso; by apply Hk | specialize (Hk Hs); lia].

Ltac keeps_other :=
  let Hk := fresh "Hk" in
  destruct (decide _) as [Hk | Hk]; [done | exfalso; by apply Hk].

Lemma _with_primary_filter (m : Z) (selection : Selection) (P : ServerDescription) :
  primary selection = Some P →
  _validate_max_staleness m (heartbeat_frequency selection)
    (idle_write_period P) = Return () →
  _with_primary m selection =
    Return (with_server_descriptions selection
      (filter (keeps_with_primary m (heartbeat_frequency selection) P)
         (server_descriptions selection))).
Proof.
  intros HP Hval. unfold _with_primary. rewrite HP.
  rewrite (bind_Return _ _ () Hval). f_equal. f_equal.
  rewrite (append_loop_filter
    (keeps_with_primary m (heartbeat_frequency selection) P)); [done |].
  intros sds s. unfold keeps_with_primary.
  destruct (decide (server_type s = RSSecondary)) as [Hs | Hs].
  - keeps_secondary Hs.
  - keeps_other.
Qed.

Lemma no_primary_loop_filter (m hb : Z) (smax : ServerDescription)
    (l : list ServerDescription) :
  foldl (λ sds s,
    if decide (server_type s = RSSecondary) then
      if last_write_date smax - last_write_date s + hb <=? m
      then sds ++ [s] else sds
    else sds ++ [s]) [] l
  = filter (keeps_no_primary m hb smax) l.
Proof.
  rewrite (append_loop_filter (keeps_no_primary m hb smax)); [done |].
  intros sds s. unfold keeps_no_primary.
  destruct (decide (server_type s = RSSecondary)) as [Hs | Hs].
  - keeps_secondary Hs.
  - keeps_other.
Qed.

Section NoPrimary.
Context {M : SelectionMethods}.

(** With both accessors returning a member and a feasible bound,
    [_no_primary] returns the members that pass [keeps_no_primary]. *)
Lemma _no_primary_filter (m : Z) (selection : Selection)
    (smax srecent : ServerDescription) :
  secondary_with_max_last_write_date selection = Some smax →
  secondary_with_max_last_update_time selection = Some srecent →
  _validate_max_staleness m (heartbeat_frequency selection)
    (idle_write_period srecent) = Return () →
  _no_primary m selection =
    Return (with_server_descriptions selection
      (filter (keeps_no_primary m (heartbeat_frequency selection) smax)
         (server_descriptions selection))).
Proof.
  intros Hmax Hrecent Hval. unfold _no_primary.
  rewrite Hmax, Hrecent, (bind_Return _ _ () Hval).
  by rewrite no_primary_loop_filter.
Qed.

Context {MS : SelectionMethodsSpec M}.

(** The accessors agree on whether there is a secondary. *)
Lemma smax_None_no_secondary (selection : Selection) :
  secondary_with_max_last_write_date selection = None →
  ∀ s, s ∈ server_descriptions selection → server_type s ≠ RSSecondary.
Proof.
  intros Hnone. pose proof (smax_greatest selection) as Hg.
  by rewrite Hnone in Hg.
Qed.

Lemma no_secondary_smax_None (selection : Selection) :
  (∀ s, s ∈ server_descriptions selection → server_type s ≠ RSSecondary) →
  secondary_with_max_last_write_date selection = None.
Proof.
  intros Hno. pose proof (smax_greatest selection) as Hg.
  destruct (secondary_with_max_last_write_date selection) as [smax |];
    [| done].
  destruct Hg as (Hin & Hsec & _). by destruct (Hno smax Hin).
Qed.

Lemma secondary_smax_Some (selection : Selection) (s : ServerDescription) :
  s ∈ server_descriptions selection → server_type s = RSSecondary →
  ∃ smax, secondary_with_max_last_write_date selection = Some smax ∧
          greatest_secondary last_write_date selection (Some smax).
Proof.
  intros Hin Hsec. pose proof (smax_greatest selection) as Hg.
  destruct (secondary_with_max_last_write_date selection) as [smax |].
  - by exists smax.
  - by destruct (Hg s Hin).
Qed.

Lemma secondary_srecent_Some (selection : Selection) (s : ServerDescription) :
  s ∈ server_descriptions selection → server_type s = RSSecondary →
  ∃ srecent, secondary_with_max_last_update_time selection = Some srecent ∧
             greatest_secondary last_update_time selection (Some srecent).
Proof.
  intros Hin Hsec. pose proof (srecent_greatest selection) as Hg.
  destruct (secondary_with_max_last_update_time selection) as [srecent |].
  - by exists srecent.
  - by destruct (Hg s Hin).
Qed.

End NoPrimary.

(** Two greatest secondaries have the same key. *)
Lemma greatest_secondary_key (key : ServerDescription → Z)
    (selection : Selection) (a b : ServerDescription) :
  greatest_secondary key selection (Some a) →
  greatest_secondary key selection (Some b) →
  key a = key b.
Proof.
  intros (Ha & Hsa & Hmaxa) (Hb & Hsb & Hmaxb).
  pose proof (Hmaxa b Hb Hsb). pose proof (Hmaxb a Ha Hsa). lia.
Qed.

(** ** The two implementations of the accessors meet the interface *)

Section Greatest.
Variable key : ServerDescription → Z.
Variable better : Z → Z → bool.
Hypothesis better_true : ∀ a b, better a b = true → a ≤ b.
Hypothesis better_false : ∀ a b, better a b = false → b ≤ a.

Let step (best s : ServerDescription) : ServerDescription :=
  if better (key best) (key s) then s else best.

Lemma foldl_greatest (l : list ServerDescription) (x : ServerDescription) :
  foldl step x l ∈ x :: l ∧
  ∀ s, s ∈ x :: l → key s ≤ key (foldl step x l).
Proof.
  revert x. induction l as [| y l IH]; intros x; simpl.
  - split; [apply list_elem_of_here |]. intros s Hs.
    apply list_elem_of_singleton in Hs as ->. lia.
  - destruct (IH (step x y)) as [Hin Hmax]. split.
    + apply elem_of_cons in Hin as [Hin | Hin].
      * rewrite Hin. unfold step.
        destruct (better _ _); rewrite !elem_of_cons; auto.
      * rewrite !elem_of_cons; auto.
    + intros s Hs.
      assert (key x ≤ key (step x y) ∧ key y ≤ key (step x y)) as [Hx Hy].
      { unfold step. destruct (better (key x) (key y)) eqn:Hb.
        - apply better_true in Hb. lia.
        - apply better_false in Hb. lia. }
      pose proof (Hmax (step x y) (list_elem_of_here _ _)) as Hstep.
      apply elem_of_cons in Hs as [-> | Hs]; [lia |].
      apply elem_of_cons in Hs as [-> | Hs]; [lia |].
      apply Hmax. by apply list_elem_of_further.
Qed.

Lemma greatest_of_secondaries (selection : Selection) :
  greatest_secondary key selection
    match secondaries selection with
    | [] => None
    | x :: l => Some (foldl step x l)
    end.
Proof.
  unfold secondaries.
  destruct (filter _ (server_descriptions selection)) as [| x l] eqn:Hf;
    simpl.
  - intros s Hs Hsec.
    by apply (filter_nil_not_elem_of _ _ s Hf).
  - destruct (foldl_greatest l x) as [Hin Hmax].
    rewrite <- Hf in Hin, Hmax.
    apply list_elem_of_filter in Hin as [Hsec Hin].
    repeat split; [done.. |].
    intros s Hs Hss. apply Hmax. by apply list_elem_of_filter.
Qed.
End Greatest.

Global Instance first_greatest_spec : SelectionMethodsSpec first_greatest.
Proof.
  split; intros selection; simpl; unfold max_first;
    apply (greatest_of_secondaries _ Z.ltb);
    intros a b Hab; lia.
Qed.

Global Instance last_greatest_spec : SelectionMethodsSpec last_greatest.
Proof.
  split; intros selection; simpl; unfold max_last;
    apply (greatest_of_secondaries _ Z.leb);
    intros a b Hab; lia.
Qed.

Global Instance mixed_greatest_spec : SelectionMethodsSpec mixed_greatest.
Proof.
  split; intros selection; simpl.
  - unfold max_first. apply (greatest_of_secondaries _ Z.ltb);
      intros a b Hab; lia.
  - unfold max_last. apply (greatest_of_secondaries _ Z.leb);
      intros a b Hab; lia.
Qed.

(** ** What a returned selection looks like *)

Lemma _with_primary_Return (m : Z) (selection out : Selection) :
  _with_primary m selection = Return out →
  ∃ P, primary selection = Some P ∧
       heartbeat_frequency selection + idle_write_period P ≤ m ∧
       out = with_server_descriptions selection
               (filter (keeps_with_primary m (heartbeat_frequency selection) P)
                  (server_descriptions selection)).
Proof.
  intros Hret. destruct (primary selection) as [P |] eqn:HP.
  - exists P.
    destruct (validate_total m (heartbeat_frequency selection)
                (idle_write_period P)) as [Hval | [msg Hval]].
    + rewrite (_with_primary_filter m selection P HP Hval) in Hret.
      injection Hret as <-. by apply validate_returns_iff in Hval.
    + unfold _with_primary in Hret. rewrite HP, Hval in Hret. discriminate.
  - unfold _with_primary in Hret. rewrite HP in Hret. discriminate.
Qed.

Lemma _no_primary_Return {M : SelectionMethods}
    (m : Z) (selection out : Selection) :
  _no_primary m selection = Return out →
  (secondary_with_max_last_write_date selection = None ∧
   out = with_server_descriptions selection []) ∨
  (∃ smax srecent,
     secondary_with_max_last_write_date selection = Some smax ∧
     secondary_with_max_last_update_time selection = Some srecent ∧
     heartbeat_frequency selection + idle_write_period srecent ≤ m ∧
     out = with_server_descriptions selection
             (filter (keeps_no_primary m (heartbeat_frequency selection) smax)
                (server_descriptions selection))).
Proof.
  intros Hret.
  destruct (secondary_with_max_last_write_date selection) as [smax |] eqn:Hmax.
  - right. exists smax.
    destruct (secondary_with_max_last_update_time selection)
      as [srecent |] eqn:Hrecent.
    + exists srecent.
      destruct (validate_total m (heartbeat_frequency selection)
                  (idle_write_period srecent)) as [Hval | [msg Hval]].
      * rewrite (_no_primary_filter m selection smax srecent Hmax Hrecent Hval)
          in Hret.
        injection Hret as <-. by apply validate_returns_iff in Hval.
      * unfold _no_primary in Hret.
        rewrite Hmax, Hrecent, Hval in Hret. discriminate.
    + unfold _no_primary in Hret. rewrite Hmax, Hrecent in Hret. discriminate.
  - left. unfold _no_primary in Hret. rewrite Hmax in Hret.
    by injection Hret as <-.
Qed.

(** ** The store embedding refines the value embedding *)

Section StoreRuns.
Import Store.

Lemma bind_run {A B : Type} (c : action A) (k : A → action B)
    (σ σ' : store) (a : A) :
  c σ = Return (a, σ') → (c ≫= k) σ = k a σ'.
Proof. intros Hc. unfold mbind, action_bind. by rewrite Hc. Qed.

Lemma bind_run_raise {A B : Type} (c : action A) (k : A → action B)
    (σ : store) (e : exn) :
  c σ = Raise e → (c ≫= k) σ = Raise e.
Proof. intros Hc. unfold mbind, action_bind. by rewrite Hc. Qed.

Lemma load_run (σ : store) (l : loc) (o : object) :
  σ !! l = Some o → load l σ = Return (o, σ).
Proof. intros Hl. unfold load. by rewrite Hl. Qed.

Lemma items_of_run (σ : store) (l : loc) (items : list ServerDescription) :
  σ !! l = Some (ListObject items) → items_of l σ = Return (items, σ).
Proof.
  intros Hl. unfold items_of. by rewrite (bind_run _ _ _ _ _ (load_run _ _ _ Hl)).
Qed.

Section Attributes.
Variables (σ : store) (selection sds : loc) (hb : Z)
          (p : option ServerDescription).
Hypothesis Hselection : σ !! selection = Some (SelectionObject sds hb p).

Lemma get_server_descriptions_run :
  get_server_descriptions selection σ = Return (sds, σ).
Proof.
  unfold get_server_descriptions.
  by rewrite (bind_run _ _ _ _ _ (load_run _ _ _ Hselection)).
Qed.

Lemma get_heartbeat_frequency_run :
  get_heartbeat_frequency selection σ = Return (hb, σ).
Proof.
  unfold get_heartbeat_frequency.
  by rewrite (bind_run _ _ _ _ _ (load_run _ _ _ Hselection)).
Qed.

Lemma get_primary_run : get_primary selection σ = Return (p, σ).
Proof.
  unfold get_primary.
  by rewrite (bind_run _ _ _ _ _ (load_run _ _ _ Hselection)).
Qed.

Lemma snapshot_run (items : list ServerDescription) :
  σ !! sds = Some (ListObject items) →
  snapshot selection σ =
    Return ({| server_descriptions := items;
               heartbeat_frequency := hb;
               primary := p |}, σ).
Proof.
  intros Hitems. unfold snapshot.
  rewrite (bind_run _ _ _ _ _ get_server_descriptions_run).
  rewrite (bind_run _ _ _ _ _ (items_of_run _ _ _ Hitems)).
  rewrite (bind_run _ _ _ _ _ get_heartbeat_frequency_run).
  by rewrite (bind_run _ _ _ _ _ get_primary_run).
Qed.
End Attributes.

Lemma selection_at_Some (σ : store) (l : loc) (sel : Selection) :
  selection_at σ l = Some sel →
  ∃ sds, σ !! l = Some (SelectionObject sds (heartbeat_frequency sel)
                          (primary sel)) ∧
         σ !! sds = Some (ListObject (server_descriptions sel)).
Proof.
  unfold selection_at. intros Hat.
  destruct (σ !! l) as [[items | sds hb p] |] eqn:Hl; try discriminate.
  destruct (σ !! sds) as [[items | ? ? ?] |] eqn:Hsds; try discriminate.
  injection Hat as <-. by exists sds.
Qed.

Lemma fresh_lookup_None (σ : store) : σ !! fresh (dom σ) = None.
Proof. apply not_elem_of_dom, is_fresh. Qed.

Lemma fresh_ne (σ : store) (l : loc) (o : object) :
  σ !! l = Some o → fresh (dom σ) ≠ l.
Proof. intros Hl Heq. rewrite <- Heq, fresh_lookup_None in Hl. discriminate. Qed.
End StoreRuns.

(** The loops over the store: the new list [sds] ends up holding the members
    that pass the test, and no other object changes. *)
Lemma for_each_append (keep : ServerDescription → Prop)
    `{!∀ s, Decision (keep s)}
    (body : ServerDescription → Store.action unit)
    (selection members sds : Store.loc) (hb : Z)
    (p : option ServerDescription) :
  sds ≠ selection →
  (∀ s σ, σ !! selection = Some (Store.SelectionObject members hb p) →
     body s σ = if decide (keep s) then Store.append sds s σ
                else Return ((), σ)) →
  ∀ items acc σ,
    σ !! selection = Some (Store.SelectionObject members hb p) →
    σ !! sds = Some (Store.ListObject acc) →
    Store.for_each items body σ =
      Return ((), <[sds := Store.ListObject (acc ++ filter keep items)]> σ).
Proof.
  intros Hne Hbody. induction items as [| s items IH]; intros acc σ Hsel Hsds.
  - simpl. rewrite filter_nil, app_nil_r, insert_id; done.
  - simpl. rewrite filter_cons.
    destruct (decide (keep s)) as [Hk | Hk].
    + erewrite bind_run; cycle 1.
      { rewrite Hbody by done. rewrite decide_True by done.
        unfold Store.append. rewrite Hsds. reflexivity. }
      rewrite (IH (acc ++ [s])).
      * by rewrite insert_insert_eq, <- app_assoc.
      * by rewrite lookup_insert_ne.
      * by rewrite lookup_insert_eq.
    + erewrite bind_run; cycle 1.
      { rewrite Hbody by done. rewrite decide_False by done. reflexivity. }
      by apply IH.
Qed.

Lemma with_server_descriptions_run (σ : Store.store)
    (selection members : Store.loc) (sel : Selection)
    (kept : list ServerDescription) :
  let sds := fresh (dom σ) in
  σ !! selection = Some (Store.SelectionObject members
                           (heartbeat_frequency sel) (primary sel)) →
  Store.with_server_descriptions selection sds
    (<[sds := Store.ListObject kept]> σ) =
  Return (returned σ (with_server_descriptions sel kept)).
Proof.
  intros sds Hsel.
  assert (<[sds := Store.ListObject kept]> σ !! selection =
          Some (Store.SelectionObject members (heartbeat_frequency sel)
                  (primary sel))) as Hsel'.
  { rewrite lookup_insert_ne; [done |]. by eapply fresh_ne. }
  unfold Store.with_server_descriptions.
  rewrite (bind_run _ _ _ _ _ (get_heartbeat_frequency_run _ _ _ _ _ Hsel')).
  rewrite (bind_run _ _ _ _ _ (get_primary_run _ _ _ _ _ Hsel')).
  reflexivity.
Qed.

Lemma _with_primary_refines (m : Z) (σ : Store.store) (l : Store.loc)
    (sel : Selection) :
  Store.selection_at σ l = Some sel →
  refines (_with_primary m sel) σ (Store._with_primary m l σ).
Proof.
  intros Hat. apply selection_at_Some in Hat as (members & Hsel & Hitems).
  unfold refines, Store._with_primary.
  rewrite (bind_run _ _ _ _ _ (get_primary_run _ _ _ _ _ Hsel)).
  destruct (primary sel) as [P |] eqn:HP.
  2: { unfold _with_primary. by rewrite HP. }
  rewrite (bind_run _ _ _ _ _ (get_heartbeat_frequency_run _ _ _ _ _ Hsel)).
  destruct (validate_total m (heartbeat_frequency sel) (idle_write_period P))
    as [Hval | [msg Hval]].
  2: { unfold _with_primary. rewrite HP. cbv beta iota. by rewrite Hval. }
  rewrite (_with_primary_filter m sel P HP Hval).
  erewrite bind_run; [| unfold Store.lift; by rewrite Hval].
  erewrite bind_run; [| reflexivity].
  set (sds := fresh (dom σ)).
  assert (sds ≠ l) as Hne by (by eapply fresh_ne).
  assert (sds ≠ members) as Hne' by (by eapply fresh_ne).
  assert (<[sds := Store.ListObject []]> σ !! l =
          Some (Store.SelectionObject members (heartbeat_frequency sel)
                  (Some P))) as Hsel1.
  { by rewrite lookup_insert_ne. }
  rewrite (bind_run _ _ _ _ _ (get_server_descriptions_run _ _ _ _ _ Hsel1)).
  erewrite bind_run; cycle 1.
  { apply items_of_run. by rewrite lookup_insert_ne. }
  erewrite bind_run; cycle 1.
  { apply (for_each_append
             (keeps_with_primary m (heartbeat_frequency sel) P)
             _ l members sds (heartbeat_frequency sel) (Some P) Hne);
      [| done | apply lookup_insert_eq].
    intros s σ' Hσ'. unfold keeps_with_primary.
    destruct (decide (server_type s = RSSecondary)) as [Hs | Hs].
    - rewrite (bind_run _ _ _ _ _ (get_heartbeat_frequency_run _ _ _ _ _ Hσ')).
      keeps_secondary Hs.
    - keeps_other. }
  rewrite insert_insert_eq. simpl.
  rewrite <- HP in Hsel.
  apply (with_server_descriptions_run σ l members sel _ Hsel).
Qed.

Lemma _no_primary_refines {M : SelectionMethods} (m : Z) (σ : Store.store)
    (l : Store.loc) (sel : Selection) :
  Store.selection_at σ l = Some sel →
  refines (_no_primary m sel) σ (Store._no_primary m l σ).
Proof.
  intros Hat. apply selection_at_Some in Hat as (members & Hsel & Hitems).
  assert (Store.snapshot l σ = Return (sel, σ)) as Hsnap.
  { rewrite (snapshot_run _ _ _ _ _ Hsel _ Hitems). by destruct sel. }
  unfold refines, Store._no_primary, Store.secondary_with_max_last_write_date,
    Store.secondary_with_max_last_update_time.
  erewrite bind_run; [| by erewrite bind_run].
  set (sds := fresh (dom σ)).
  assert (sds ≠ l) as Hne by (by eapply fresh_ne).
  assert (sds ≠ members) as Hne' by (by eapply fresh_ne).
  assert (<[sds := Store.ListObject []]> σ !! l =
          Some (Store.SelectionObject members (heartbeat_frequency sel)
                  (primary sel))) as Hsel1.
  { by rewrite lookup_insert_ne. }
  destruct (secondary_with_max_last_write_date sel) as [smax |] eqn:Hmax.
  2: { unfold _no_primary. rewrite Hmax.
       erewrite bind_run; [| reflexivity].
       apply (with_server_descriptions_run σ l members sel _ Hsel). }
  erewrite bind_run; [| by erewrite bind_run].
  destruct (secondary_with_max_last_update_time sel) as [srecent |] eqn:Hrecent.
  2: { unfold _no_primary. by rewrite Hmax, Hrecent. }
  erewrite bind_run; [| reflexivity]. fold sds.
  rewrite (bind_run _ _ _ _ _ (get_heartbeat_frequency_run _ _ _ _ _ Hsel1)).
  destruct (validate_total m (heartbeat_frequency sel)
              (idle_write_period srecent)) as [Hval | [msg Hval]].
  2: { unfold _no_primary. rewrite Hmax, Hrecent. by rewrite Hval. }
  rewrite (_no_primary_filter m sel smax srecent Hmax Hrecent Hval).
  erewrite bind_run; [| unfold Store.lift; by rewrite Hval].
  rewrite (bind_run _ _ _ _ _ (get_server_descriptions_run _ _ _ _ _ Hsel1)).
  erewrite bind_run; cycle 1.
  { apply items_of_run. by rewrite lookup_insert_ne. }
  erewrite bind_run; cycle 1.
  { apply (for_each_append
             (keeps_no_primary m (heartbeat_frequency sel) smax)
             _ l members sds (heartbeat_frequency sel) (primary sel) Hne);
      [| done | apply lookup_insert_eq].
    intros s σ' Hσ'. unfold keeps_no_primary.
    destruct (decide (server_type s = RSSecondary)) as [Hs | Hs].
    - rewrite (bind_run _ _ _ _ _ (get_heartbeat_frequency_run _ _ _ _ _ Hσ')).
      keeps_secondary Hs.
    - keeps_other. }
  rewrite insert_insert_eq. simpl.
  apply (with_server_descriptions_run σ l members sel _ Hsel).
Qed.

Lemma select_refines {M : SelectionMethods} (m : option Z) (σ : Store.store)
    (l : Store.loc) (sel : Selection) :
  Store.selection_at σ l = Some sel →
  if truthy m then refines (select m sel) σ (Store.select m l σ)
  else select m sel = Return sel ∧ Store.select m l σ = Return (l, σ).
Proof.
  intros Hat. destruct m as [n |]; [| done]. simpl.
  unfold select, Store.select. destruct (n =? 0); [done |]. simpl.
  pose proof Hat as (members & Hsel & Hitems)%selection_at_Some.
  rewrite (bind_run _ _ _ _ _ (get_primary_run _ _ _ _ _ Hsel)).
  destruct (primary sel) as [P |].
  - by apply _with_primary_refines.
  - by apply _no_primary_refines.
Qed.

(** ** The frame of a call *)

Lemma select_Return_frame {M : SelectionMethods} (m : option Z)
    (selection out : Selection) :
  select m selection = Return out →
  heartbeat_frequency out = heartbeat_frequency selection ∧
  server_descriptions out ⊆ server_descriptions selection.
Proof.
  unfold select. intros Hret.
  destruct m as [n |]; [| by injection Hret as <-].
  destruct (n =? 0); [by injection Hret as <- |].
  destruct (primary selection) as [P |].
  - apply _with_primary_Return in Hret as (P' & _ & _ & ->).
    split; [done |]. apply list_subseteq_filter.
  - apply _no_primary_Return in Hret
      as [[_ ->] | (smax & srecent & _ & _ & _ & ->)].
    + split; [done |]. apply list_subseteq_nil.
    + split; [done |]. apply list_subseteq_filter.
Qed.

Lemma returned_extends (σ : Store.store) (out : Selection) :
  σ ⊆ (returned σ out).2.
Proof.
  unfold returned. simpl.
  etrans; [| apply insert_subseteq, fresh_lookup_None].
  apply insert_subseteq, fresh_lookup_None.
Qed.

Lemma returned_selection_at (σ : Store.store) (out : Selection) :
  Store.selection_at (returned σ out).2 (returned σ out).1 = Some out.
Proof.
  unfold returned, Store.selection_at. simpl.
  rewrite lookup_insert_eq, lookup_insert_ne, lookup_insert_eq.
  - by destruct out.
  - intros Heq.
    pose proof (fresh_lookup_None
      (<[fresh (dom σ) := Store.ListObject (server_descriptions out)]> σ))
      as Hfresh.
    rewrite Heq, lookup_insert_eq in Hfresh. discriminate.
Qed.

Lemma selection_at_weaken (σ σ' : Store.store) (l : Store.loc)
    (sel : Selection) :
  σ ⊆ σ' → Store.selection_at σ l = Some sel →
  Store.selection_at σ' l = Some sel.
Proof.
  intros Hsub Hat. apply selection_at_Some in Hat as (members & Hsel & Hitems).
  unfold Store.selection_at.
  rewrite (lookup_weaken _ _ _ _ Hsel Hsub), (lookup_weaken _ _ _ _ Hitems Hsub).
  by destruct sel.
Qed.

(** ** The worked examples *)

Example scenario_1 :
  _with_primary 90 with_primary_selection = Return with_primary_selection.
Proof. reflexivity. Qed.

Example scenario_2 :
  _with_primary 20 with_primary_selection =
    Return (with_server_descriptions with_primary_selection
              [the_primary; near_secondary; the_arbiter]).
Proof. reflexivity. Qed.

(** A bound of 15 seconds is below heartbeat plus idle write period. *)
Example scenario_2_infeasible :
  raises_ConfigurationError (_with_primary 15 with_primary_selection).
Proof. eexists. reflexivity. Qed.

Example scenario_3_kept :
  _no_primary (M := first_greatest) 45 no_primary_selection =
    Return no_primary_selection.
Proof. reflexivity. Qed.

Example scenario_3_dropped :
  _no_primary (M := first_greatest) 35 no_primary_selection =
    Return (with_server_descriptions no_primary_selection
              [secondary_A; the_arbiter]).
Proof. reflexivity. Qed.

Example scenario_4 :
  raises_ConfigurationError (_validate_max_staleness 25 20 10).
Proof. eexists. reflexivity. Qed.

(** * The claims *)

(** C1. Known-primary filter: when the primary [P] is present and the bound
    validation returns without raising, [_with_primary] returns a selection
    in which a secondary member [S] of the input is kept if and only if
    [(S.lastUpdateTime - S.lastWriteDate) - (P.lastUpdateTime -
    P.lastWriteDate) + heartbeatFrequency <= maxStaleness]. *)
Theorem with_primary_keeps_secondary_iff
    (max_staleness : Z) (selection : Selection) (P : ServerDescription) :
  primary selection = Some P →
  _validate_max_staleness max_staleness (heartbeat_frequency selection)
    (idle_write_period P) = Return () →
  ∃ out, _with_primary max_staleness selection = Return out ∧
    ∀ S, S ∈ server_descriptions selection → server_type S = RSSecondary →
      (S ∈ server_descriptions out ↔
       (last_update_time S - last_write_date S) -
       (last_update_time P - last_write_date P) +
       heartbeat_frequency selection ≤ max_staleness).
Proof.
  intros HP Hval. eexists. split; [by apply _with_primary_filter |].
  intros S Hin Hsec. simpl. rewrite list_elem_of_filter.
  unfold keeps_with_primary. split.
  - intros [Hk _]. by apply Hk.
  - intros Hle. by split.
Qed.

Lemma with_primary_keeps_secondary_iff_witness :
  ∃ out, _with_primary 20 with_primary_selection = Return out ∧
    ∀ S, S ∈ server_descriptions with_primary_selection →
      server_type S = RSSecondary →
      (S ∈ server_descriptions out ↔
       (last_update_time S - last_write_date S) -
       (last_update_time the_primary - last_write_date the_primary) +
       heartbeat_frequency with_primary_selection ≤ 20).
Proof.
  apply (with_primary_keeps_secondary_iff 20 with_primary_selection the_primary);
    reflexivity.
Defined.

(** C2. No-primary filter: when [SMax] is a secondary member with the
    greatest lastWriteDate and the bound validation (against the idle write
    period of the secondary with the greatest lastUpdateTime) returns without
    raising, [_no_primary] returns a selection in which a secondary member
    [S] of the input is kept if and only if
    [SMax.lastWriteDate - S.lastWriteDate + heartbeatFrequency <=
    maxStaleness].  The filter does not read the selection's primary. *)
Theorem no_primary_keeps_secondary_iff
    {M : SelectionMethods} {MS : SelectionMethodsSpec M}
    (max_staleness : Z) (selection : Selection) (SMax : ServerDescription) :
  greatest_secondary last_write_date selection (Some SMax) →
  (∀ srecent, secondary_with_max_last_update_time selection = Some srecent →
     _validate_max_staleness max_staleness (heartbeat_frequency selection)
       (idle_write_period srecent) = Return ()) →
  ∃ out, _no_primary max_staleness selection = Return out ∧
    ∀ S, S ∈ server_descriptions selection → server_type S = RSSecondary →
      (S ∈ server_descriptions out ↔
       last_write_date SMax - last_write_date S +
       heartbeat_frequency selection ≤ max_staleness).
Proof.
  intros HSMax Hval.
  pose proof HSMax as (Hin & Hsec & _).
  destruct (secondary_smax_Some selection SMax Hin Hsec) as (smax & Hsmax & Hg).
  destruct (secondary_srecent_Some selection SMax Hin Hsec)
    as (srecent & Hsrecent & _).
  eexists. split.
  { apply (_no_primary_filter _ _ smax srecent); auto. }
  intros S HS HSsec. simpl. rewrite list_elem_of_filter.
  unfold keeps_no_primary.
  rewrite (greatest_secondary_key _ _ _ _ Hg HSMax). split.
  - intros [Hk _]. by apply Hk.
  - intros Hle. by split.
Qed.

Lemma no_primary_keeps_secondary_iff_witness :
  ∃ out, _no_primary (M := first_greatest) 35 no_primary_selection = Return out ∧
    ∀ S, S ∈ server_descriptions no_primary_selection →
      server_type S = RSSecondary →
      (S ∈ server_descriptions out ↔
       last_write_date secondary_A - last_write_date S +
       heartbeat_frequency no_primary_selection ≤ 35).
Proof.
  apply (no_primary_keeps_secondary_iff (M := first_greatest)
           35 no_primary_selection secondary_A).
  - exact (smax_greatest (M := first_greatest) no_primary_selection).
  - intros srecent Hsrecent. vm_compute in Hsrecent.
    injection Hsrecent as <-. reflexivity.
Defined.

(** C3. Bound validator: for non-negative inputs, [_validate_max_staleness]
    raises a ConfigurationError if and only if
    [maxStaleness < heartbeatFrequency + idleWritePeriod]; when
    [maxStaleness = heartbeatFrequency + idleWritePeriod] it returns without
    an error. *)
Theorem validate_raises_iff_infeasible
    (max_staleness heartbeat_frequency idle_write_period : Z) :
  0 ≤ max_staleness → 0 ≤ heartbeat_frequency → 0 ≤ idle_write_period →
  (raises_ConfigurationError
     (_validate_max_staleness max_staleness heartbeat_frequency
        idle_write_period) ↔
   max_staleness < heartbeat_frequency + idle_write_period) ∧
  (max_staleness = heartbeat_frequency + idle_write_period →
   _validate_max_staleness max_staleness heartbeat_frequency
     idle_write_period = Return ()).
Proof.
  intros _ _ _. split.
  - apply validate_raises_iff.
  - intros ->. apply validate_returns_iff. lia.
Qed.

Lemma validate_raises_iff_infeasible_witness :
  (raises_ConfigurationError (_validate_max_staleness 20 10 10) ↔
   20 < 10 + 10) ∧
  (20 = 10 + 10 → _validate_max_staleness 20 10 10 = Return ()).
Proof. apply (validate_raises_iff_infeasible 20 10 10); lia. Defined.

(** C4. Disabled bound: with [maxStaleness] zero or unset, [select] returns
    its input selection as it is, whatever the heartbeat frequency and the
    idle write periods are: the validator and the filters are not run.  Over
    the store, the very object that was passed is returned and the store is
    as it was. *)
Theorem select_disabled_identity {M : SelectionMethods}
    (selection : Selection) (σ : Store.store) (l : Store.loc) :
  select (Some 0) selection = Return selection ∧
  select None selection = Return selection ∧
  Store.select (Some 0) l σ = Return (l, σ) ∧
  Store.select None l σ = Return (l, σ).
Proof. repeat split; reflexivity. Qed.

(** With a heartbeat of 20 seconds and an idle write period of 10 seconds
    a bound of 25 seconds is rejected, and the zero bound goes through. *)
Example select_disabled_infeasible_configuration :
  let selection :=
    {| server_descriptions := [member 27017 RSPrimary 101 100 10];
       heartbeat_frequency := 20;
       primary := Some (member 27017 RSPrimary 101 100 10) |} in
  raises_ConfigurationError (select (M := first_greatest) (Some 25) selection) ∧
  select (M := first_greatest) (Some 0) selection = Return selection.
Proof. split; [eexists |]; reflexivity. Qed.

(** C5. No-primary degenerate case: when the selection has no primary and no
    secondary member, [select] with any truthy [maxStaleness], feasible or
    not, returns a selection with no members and raises nothing. *)
Theorem select_no_primary_no_secondary
    {M : SelectionMethods} {MS : SelectionMethodsSpec M}
    (max_staleness : option Z) (selection : Selection) :
  primary selection = None →
  (∀ s, s ∈ server_descriptions selection → server_type s ≠ RSSecondary) →
  truthy max_staleness = true →
  ∃ out, select max_staleness selection = Return out ∧
         server_descriptions out = [].
Proof.
  intros HP Hno Htruthy. exists (with_server_descriptions selection []).
  split; [| done].
  destruct max_staleness as [n |]; [| done]. simpl in Htruthy.
  unfold select. destruct (n =? 0); [done |]. rewrite HP.
  unfold _no_primary. by rewrite (no_secondary_smax_None selection Hno).
Qed.

Lemma select_no_primary_no_secondary_witness :
  ∃ out, select (M := first_greatest) (Some 1) arbiter_only_selection
           = Return out ∧
         server_descriptions out = [].
Proof.
  apply (select_no_primary_no_secondary (M := first_greatest)
           (Some 1) arbiter_only_selection).
  - reflexivity.
  - intros s Hs. apply list_elem_of_singleton in Hs as ->. discriminate.
  - reflexivity.
Defined.

(** C6, as claimed, fails: without a primary and without a secondary the
    no-primary filter returns no member at all, so the arbiter of
    [arbiter_only_selection] is not retained. *)
Lemma no_primary_drops_arbiter_without_secondary :
  truthy (Some 90) = true ∧
  the_arbiter ∈ server_descriptions arbiter_only_selection ∧
  server_type the_arbiter ≠ RSSecondary ∧
  ∃ out, _no_primary (M := first_greatest) 90 arbiter_only_selection
           = Return out ∧
         the_arbiter ∉ server_descriptions out.
Proof.
  split; [reflexivity |]. split; [apply list_elem_of_here |].
  split; [discriminate |].
  eexists. split; [reflexivity |]. simpl. apply not_elem_of_nil.
Qed.

(** C6, amended. Non-secondary passthrough: a member whose type is not
    RSSecondary is retained in the output of the known-primary filter
    whenever that filter returns, and in the output of the no-primary filter
    whenever that filter returns and the selection has at least one
    secondary member. *)
Theorem non_secondary_passthrough
    {M : SelectionMethods} {MS : SelectionMethodsSpec M}
    (max_staleness : Z) (selection : Selection) (s : ServerDescription) :
  s ∈ server_descriptions selection →
  server_type s ≠ RSSecondary →
  (∀ out, _with_primary max_staleness selection = Return out →
          s ∈ server_descriptions out) ∧
  (∀ out,
     (∃ S, S ∈ server_descriptions selection ∧ server_type S = RSSecondary) →
     _no_primary max_staleness selection = Return out →
     s ∈ server_descriptions out).
Proof.
  intros Hin Hns. split.
  - intros out Hret. apply _with_primary_Return in Hret as (P & _ & _ & ->).
    simpl. apply list_elem_of_filter. split; [| done].
    intros Hsec. by destruct Hns.
  - intros out (S & HS & HSsec) Hret.
    apply _no_primary_Return in Hret
      as [[Hnone _] | (smax & srecent & _ & _ & _ & ->)].
    + by destruct (smax_None_no_secondary selection Hnone S HS).
    + simpl. apply list_elem_of_filter. split; [| done].
      intros Hsec. by destruct Hns.
Qed.

Lemma non_secondary_passthrough_witness :
  ∃ out_wp out_np,
    _with_primary 20 with_primary_selection = Return out_wp ∧
    _no_primary (M := first_greatest) 20 with_primary_selection
      = Return out_np ∧
    the_arbiter ∈ server_descriptions out_wp ∧
    the_arbiter ∈ server_descriptions out_np.
Proof.
  eexists _, _. split; [reflexivity |]. split; [reflexivity |].
  assert (the_arbiter ∈ server_descriptions with_primary_selection) as Hin.
  { do 3 apply list_elem_of_further. apply list_elem_of_here. }
  assert (server_type the_arbiter ≠ RSSecondary) as Hns by discriminate.
  destruct (non_secondary_passthrough (M := first_greatest) 20
              with_primary_selection the_arbiter Hin Hns) as [Hwp Hnp].
  split.
  - apply Hwp. reflexivity.
  - apply Hnp; [| reflexivity].
    exists near_secondary. split; [| reflexivity].
    apply list_elem_of_further, list_elem_of_here.
Defined.

(** C7. Known-primary monotonicity: when [m1 <= m2] and [_with_primary]
    returns for both bounds (so the selection has a primary and neither call
    raises), every secondary kept under [m1] is kept under [m2]. *)
Theorem with_primary_monotone
    (m1 m2 : Z) (selection out1 out2 : Selection) (S : ServerDescription) :
  m1 ≤ m2 →
  _with_primary m1 selection = Return out1 →
  _with_primary m2 selection = Return out2 →
  server_type S = RSSecondary →
  S ∈ server_descriptions out1 → S ∈ server_descriptions out2.
Proof.
  intros Hle Hret1 Hret2 Hsec.
  apply _with_primary_Return in Hret1 as (P1 & HP1 & _ & ->).
  apply _with_primary_Return in Hret2 as (P2 & HP2 & _ & ->).
  rewrite HP1 in HP2. injection HP2 as <-. simpl.
  rewrite !list_elem_of_filter. intros [Hk Hin]. split; [| done].
  intros _. specialize (Hk Hsec). lia.
Qed.

Lemma with_primary_monotone_witness :
  near_secondary ∈
    server_descriptions
      (with_server_descriptions with_primary_selection
         [the_primary; near_secondary; far_secondary; the_arbiter]).
Proof.
  apply (with_primary_monotone 20 90 with_primary_selection
           (with_server_descriptions with_primary_selection
              [the_primary; near_secondary; the_arbiter])
           (with_server_descriptions with_primary_selection
              [the_primary; near_secondary; far_secondary; the_arbiter])
           near_secondary).
  - lia.
  - reflexivity.
  - reflexivity.
  - reflexivity.
  - simpl. apply list_elem_of_further, list_elem_of_here.
Defined.

(** C8, as claimed, fails: [tied_A] and [tied_B] share the greatest
    lastUpdateTime, and with a bound of 50 seconds the no-primary filter
    returns when [tied_A] is taken as Srecent and raises a
    ConfigurationError when [tied_B] is, because the validator reads
    Srecent's idle write period. *)
Lemma tie_break_on_last_update_time_decides_validation :
  greatest_secondary last_update_time tied_selection (Some tied_A) ∧
  greatest_secondary last_update_time tied_selection (Some tied_B) ∧
  secondary_with_max_last_update_time (SelectionMethods := first_greatest)
    tied_selection = Some tied_A ∧
  secondary_with_max_last_update_time (SelectionMethods := last_greatest)
    tied_selection = Some tied_B ∧
  _no_primary (M := first_greatest) 50 tied_selection = Return tied_selection ∧
  raises_ConfigurationError (_no_primary (M := last_greatest) 50 tied_selection).
Proof.
  split; [exact (srecent_greatest (M := first_greatest) tied_selection) |].
  split; [exact (srecent_greatest (M := last_greatest) tied_selection) |].
  split; [reflexivity |]. split; [reflexivity |]. split; [reflexivity |].
  eexists. reflexivity.
Qed.

(** C8, amended. Tie-break independence: two implementations of the
    accessors, whichever members they return among those that are greatest,
    give the same result of [_no_primary] (the same error or the same
    members kept), provided the two members they return as Srecent have
    the same idle write period, as they do when the secondaries that share
    the greatest lastUpdateTime have one idle write period.  Nothing is
    asked of the choice of SMax: of SMax only the lastWriteDate is read, and
    of Srecent only the idle write period. *)
Theorem no_primary_tie_break_independent
    {M1 : SelectionMethods} {MS1 : SelectionMethodsSpec M1}
    {M2 : SelectionMethods} {MS2 : SelectionMethodsSpec M2}
    (max_staleness : Z) (selection : Selection) :
  (∀ srecent1 srecent2,
     secondary_with_max_last_update_time (SelectionMethods := M1) selection
       = Some srecent1 →
     secondary_with_max_last_update_time (SelectionMethods := M2) selection
       = Some srecent2 →
     idle_write_period srecent1 = idle_write_period srecent2) →
  _no_primary (M := M1) max_staleness selection =
  _no_primary (M := M2) max_staleness selection.
Proof.
  intros Hidle. unfold _no_primary.
  pose proof (smax_greatest (M := M1) selection) as Hmax1.
  pose proof (smax_greatest (M := M2) selection) as Hmax2.
  pose proof (srecent_greatest (M := M1) selection) as Hrec1.
  pose proof (srecent_greatest (M := M2) selection) as Hrec2.
  destruct (secondary_with_max_last_write_date (SelectionMethods := M1) selection)
    as [smax1 |];
  destruct (secondary_with_max_last_write_date (SelectionMethods := M2) selection)
    as [smax2 |].
  - destruct (secondary_with_max_last_update_time (SelectionMethods := M1) selection)
      as [srecent1 |];
    destruct (secondary_with_max_last_update_time (SelectionMethods := M2) selection)
      as [srecent2 |].
    + rewrite (Hidle srecent1 srecent2 eq_refl eq_refl).
      by rewrite (greatest_secondary_key _ _ _ _ Hmax1 Hmax2).
    + destruct Hmax1 as (Hin & Hsec & _). by destruct (Hrec2 smax1 Hin).
    + destruct Hmax1 as (Hin & Hsec & _). by destruct (Hrec1 smax1 Hin).
    + done.
  - destruct Hmax1 as (Hin & Hsec & _). by destruct (Hmax2 smax1 Hin).
  - destruct Hmax2 as (Hin & Hsec & _). by destruct (Hmax1 smax2 Hin).
  - done.
Qed.

(** On [tied_selection], where [tied_A] and [tied_B] tie on lastWriteDate
    too, [last_greatest] takes [tied_B] as SMax and [mixed_greatest] takes
    [tied_A]; both take [tied_B] as Srecent, and the results are the same. *)
Lemma no_primary_tie_break_independent_witness :
  secondary_with_max_last_write_date (SelectionMethods := last_greatest)
    tied_selection = Some tied_B ∧
  secondary_with_max_last_write_date (SelectionMethods := mixed_greatest)
    tied_selection = Some tied_A ∧
  _no_primary (M := last_greatest) 150 tied_selection =
  _no_primary (M := mixed_greatest) 150 tied_selection.
Proof.
  split; [reflexivity |]. split; [reflexivity |].
  apply (no_primary_tie_break_independent
           (M1 := last_greatest) (M2 := mixed_greatest)
           150 tied_selection).
  intros srecent1 srecent2 H1 H2. vm_compute in H1, H2.
  injection H1 as <-. injection H2 as <-. reflexivity.
Defined.

(** C9. Frame and immutability: when [select] runs on a store in which [l]
    holds the selection [sel] and returns the location [out], then [out]
    holds a selection with the heartbeat frequency of [sel] and with members
    that are all members of [sel]; every object of the store before the call
    is the same after it, and so [l] still holds [sel].  The selection at
    [out] is the one the value embedding returns. *)
Theorem select_frame {M : SelectionMethods}
    (max_staleness : option Z) (σ σ' : Store.store) (l out : Store.loc)
    (sel : Selection) :
  Store.selection_at σ l = Some sel →
  Store.select max_staleness l σ = Return (out, σ') →
  ∃ sel',
    select max_staleness sel = Return sel' ∧
    Store.selection_at σ' out = Some sel' ∧
    heartbeat_frequency sel' = heartbeat_frequency sel ∧
    server_descriptions sel' ⊆ server_descriptions sel ∧
    σ ⊆ σ' ∧
    Store.selection_at σ' l = Some sel.
Proof.
  intros Hat Hrun. pose proof (select_refines max_staleness σ l sel Hat) as Href.
  destruct (truthy max_staleness).
  - unfold refines in Href. rewrite Hrun in Href.
    destruct (select max_staleness sel) as [sel' | e] eqn:Hsel; [| discriminate].
    assert (returned σ sel' = (out, σ')) as Hout by congruence. exists sel'.
    destruct (select_Return_frame _ _ _ Hsel) as [Hhb Hsub].
    pose proof (returned_extends σ sel') as Hext.
    pose proof (returned_selection_at σ sel') as Hat'.
    rewrite Hout in Hext, Hat'. simpl in Hext, Hat'.
    repeat split; try done. by apply (selection_at_weaken σ).
  - destruct Href as [Hsel Hrun']. rewrite Hrun in Hrun'.
    injection Hrun' as -> ->. exists sel. repeat split; done.
Qed.

Lemma select_frame_witness :
  ∃ out σ',
    Store.select (M := first_greatest) (Some 20) 2%positive with_primary_store
      = Return (out, σ') ∧
    ∃ sel',
      select (M := first_greatest) (Some 20) with_primary_selection
        = Return sel' ∧
      Store.selection_at σ' out = Some sel' ∧
      heartbeat_frequency sel' = heartbeat_frequency with_primary_selection ∧
      server_descriptions sel' ⊆ server_descriptions with_primary_selection ∧
      with_primary_store ⊆ σ' ∧
      Store.selection_at σ' 2%positive = Some with_primary_selection.
Proof.
  eexists _, _. split; [vm_compute; reflexivity |].
  apply (select_frame (M := first_greatest) (Some 20)
           with_primary_store _ 2%positive _ with_primary_selection).
  - vm_compute. reflexivity.
  - vm_compute. reflexivity.
Defined.

(** C10. A negative bound is not treated as disabled: when the selection has
    a primary or at least one secondary member, the heartbeat frequency is
    non-negative and so is the idle write period the validator reads (the
    primary's, or without a primary that of the secondary returned as most
    recently updated), [select] with a negative [maxStaleness] raises a
    ConfigurationError. *)
Theorem select_negative_raises
    {M : SelectionMethods} {MS : SelectionMethodsSpec M}
    (max_staleness : Z) (selection : Selection) :
  max_staleness < 0 →
  0 ≤ heartbeat_frequency selection →
  (∀ P, primary selection = Some P → 0 ≤ idle_write_period P) →
  (∀ srecent, primary selection = None →
     secondary_with_max_last_update_time selection = Some srecent →
     0 ≤ idle_write_period srecent) →
  (is_Some (primary selection) ∨
   ∃ s, s ∈ server_descriptions selection ∧ server_type s = RSSecondary) →
  raises_ConfigurationError (select (Some max_staleness) selection).
Proof.
  intros Hneg Hhb HidleP Hidle Hsome. unfold select.
  destruct (Z.eqb_spec max_staleness 0) as [-> | _]; [lia |].
  destruct (primary selection) as [P |] eqn:HP.
  - unfold _with_primary. rewrite HP. apply bind_raises.
    apply validate_raises_iff. specialize (HidleP P eq_refl). lia.
  - destruct Hsome as [[P HP'] | (s & Hin & Hsec)]; [discriminate |].
    destruct (secondary_smax_Some selection s Hin Hsec) as (smax & Hsmax & _).
    destruct (secondary_srecent_Some selection s Hin Hsec)
      as (srecent & Hsrecent & _).
    unfold _no_primary. rewrite Hsmax, Hsrecent. apply bind_raises.
    apply validate_raises_iff. specialize (Hidle srecent eq_refl Hsrecent). lia.
Qed.

Lemma select_negative_raises_witness :
  raises_ConfigurationError
    (select (M := first_greatest) (Some (-1)) no_primary_selection).
Proof.
  apply (select_negative_raises (M := first_greatest) (-1) no_primary_selection).
  - lia.
  - simpl. lia.
  - intros P HP. discriminate HP.
  - intros srecent _ Hsrecent. vm_compute in Hsrecent.
    injection Hsrecent as <-. simpl. lia.
  - right. exists secondary_A. split; [apply list_elem_of_here | reflexivity].
Defined.


(** * Further properties of the selectors *)

(** ** Order and outcome *)

(** X1. The members [select] returns are the input's members in their
    input order, with some left out: nothing is reordered or repeated, and
    an input without duplicates gives an output without duplicates. *)
Theorem select_sublist {M : SelectionMethods}
    (max_staleness : option Z) (selection out : Selection) :
  select max_staleness selection = Return out →
  server_descriptions out `sublist_of` server_descriptions selection ∧
  (NoDup (server_descriptions selection) → NoDup (server_descriptions out)).
Proof.
  intros Hret.
  assert (server_descriptions out `sublist_of` server_descriptions selection)
    as Hsub.
  { unfold select in Hret.
    destruct max_staleness as [n |]; [| by injection Hret as <-].
    destruct (n =? 0); [by injection Hret as <- |].
    destruct (primary selection) as [P |].
    - apply _with_primary_Return in Hret as (P' & _ & _ & ->).
      apply sublist_filter.
    - apply _no_primary_Return in Hret
        as [[_ ->] | (smax & srecent & _ & _ & _ & ->)].
      + apply sublist_nil_l.
      + apply sublist_filter. }
  split; [done |]. intros Hnodup. by eapply sublist_NoDup.
Qed.

Lemma select_sublist_witness :
  [the_primary; near_secondary; the_arbiter]
    `sublist_of` server_descriptions with_primary_selection ∧
  (NoDup (server_descriptions with_primary_selection) →
   NoDup [the_primary; near_secondary; the_arbiter]).
Proof.
  apply (select_sublist (M := first_greatest) (Some 20) with_primary_selection
           (with_server_descriptions with_primary_selection
              [the_primary; near_secondary; the_arbiter])).
  reflexivity.
Defined.

(** X2. With accessors that meet their interface, neither [assert] of the
    module fails under [select]: a call returns a selection or raises a
    ConfigurationError. *)
Theorem select_returns_or_ConfigurationError
    {M : SelectionMethods} {MS : SelectionMethodsSpec M}
    (max_staleness : option Z) (selection : Selection) :
  (∃ out, select max_staleness selection = Return out) ∨
  raises_ConfigurationError (select max_staleness selection).
Proof.
  unfold select. destruct max_staleness as [n |]; [| by left; eexists].
  destruct (n =? 0); [by left; eexists |].
  destruct (primary selection) as [P |] eqn:HP.
  - destruct (validate_total n (heartbeat_frequency selection)
                (idle_write_period P)) as [Hval | Hval].
    + left. eexists. by apply _with_primary_filter.
    + right. unfold _with_primary. rewrite HP. by apply bind_raises.
  - pose proof (smax_greatest selection) as Hmax.
    destruct (secondary_with_max_last_write_date selection)
      as [smax |] eqn:Hsmax.
    + destruct Hmax as (Hin & Hsec & _).
      destruct (secondary_srecent_Some selection smax Hin Hsec)
        as (srecent & Hsrecent & _).
      destruct (validate_total n (heartbeat_frequency selection)
                  (idle_write_period srecent)) as [Hval | Hval].
      * left. eexists. by apply (_no_primary_filter n selection smax srecent).
      * right. unfold _no_primary. rewrite Hsmax, Hsrecent.
        by apply bind_raises.
    + left. eexists. unfold _no_primary. by rewrite Hsmax.
Qed.

Lemma select_returns_or_ConfigurationError_witness :
  (∃ out, select (M := first_greatest) (Some 15) no_primary_selection
          = Return out) ∨
  raises_ConfigurationError
    (select (M := first_greatest) (Some 15) no_primary_selection).
Proof.
  apply (select_returns_or_ConfigurationError (M := first_greatest)
           (Some 15) no_primary_selection).
Defined.

(** X3. When [select] raises: exactly when the bound is a number other than
    zero and is below the heartbeat frequency plus the idle write period of
    the reference member, which is the primary if there is one and the
    secondary returned as most recently updated otherwise.  The members'
    staleness plays no part, and with a primary the check is made even when
    the selection has no secondary. *)
Theorem select_raises_iff
    {M : SelectionMethods} {MS : SelectionMethodsSpec M}
    (max_staleness : Z) (selection : Selection) :
  raises_ConfigurationError (select (Some max_staleness) selection) ↔
  max_staleness ≠ 0 ∧
  ∃ reference,
    match primary selection with
    | Some P => Some P
    | None => secondary_with_max_last_update_time selection
    end = Some reference ∧
    max_staleness <
      heartbeat_frequency selection + idle_write_period reference.
Proof.
  unfold select.
  destruct (Z.eqb_spec max_staleness 0) as [-> | Hne].
  { split; [intros [msg Hmsg]; discriminate | by intros [? _]]. }
  destruct (primary selection) as [P |] eqn:HP.
  - unfold _with_primary. rewrite HP. split.
    + intros Hraise. split; [done |]. exists P. split; [done |].
      apply validate_raises_iff.
      destruct (validate_total max_staleness (heartbeat_frequency selection)
                  (idle_write_period P)) as [Hval | Hval]; [| done].
      rewrite (bind_Return _ _ () Hval) in Hraise.
      destruct Hraise as [msg Hmsg]. discriminate.
    + intros (_ & reference & [= <-] & Hlt).
      by apply bind_raises, validate_raises_iff.
  - unfold _no_primary. split.
    + intros Hraise. split; [done |].
      destruct (secondary_with_max_last_write_date selection) as [smax |];
        [| destruct Hraise as [msg Hmsg]; discriminate].
      destruct (secondary_with_max_last_update_time selection)
        as [srecent |]; [| destruct Hraise as [msg Hmsg]; discriminate].
      exists srecent. split; [done |]. apply validate_raises_iff.
      destruct (validate_total max_staleness (heartbeat_frequency selection)
                  (idle_write_period srecent)) as [Hval | Hval]; [| done].
      rewrite (bind_Return _ _ () Hval) in Hraise.
      destruct Hraise as [msg Hmsg]. discriminate.
    + intros (_ & reference & Hrecent & Hlt).
      pose proof (srecent_greatest selection) as Hg.
      rewrite Hrecent in Hg. destruct Hg as (Hin & Hsec & _).
      destruct (secondary_smax_Some selection reference Hin Hsec)
        as (smax & Hsmax & _).
      rewrite Hsmax, Hrecent.
      by apply bind_raises, validate_raises_iff.
Qed.

Lemma select_raises_iff_witness :
  raises_ConfigurationError
    (select (M := first_greatest) (Some 15) no_primary_selection) ↔
  15 ≠ 0 ∧
  ∃ reference,
    match primary no_primary_selection with
    | Some P => Some P
    | None =>
        secondary_with_max_last_update_time (SelectionMethods := first_greatest)
          no_primary_selection
    end = Some reference ∧
    15 < heartbeat_frequency no_primary_selection +
         idle_write_period reference.
Proof.
  apply (select_raises_iff (M := first_greatest) 15 no_primary_selection).
Defined.

(** ** Composition *)

(** X4. Filtering twice with a known primary: after [_with_primary] has
    returned [out] for the bound [m1], running it on [out] with a bound
    [m2 <= m1] gives what running it on the input with [m2] gives (the same
    selection or the same error).  In particular a second run with the same
    bound returns [out] again. *)
Theorem with_primary_twice
    (m1 m2 : Z) (selection out : Selection) :
  _with_primary m1 selection = Return out →
  m2 ≤ m1 →
  _with_primary m2 out = _with_primary m2 selection ∧
  _with_primary m1 out = Return out.
Proof.
  intros Hret Hle.
  apply _with_primary_Return in Hret as (P & HP & Hfeasible & ->).
  assert (∀ m, m ≤ m1 →
    _with_primary m
      (with_server_descriptions selection
         (filter (keeps_with_primary m1 (heartbeat_frequency selection) P)
            (server_descriptions selection))) =
    _with_primary m selection) as Hstep.
  { intros m Hm.
    destruct (validate_total m (heartbeat_frequency selection)
                (idle_write_period P)) as [Hval | [msg Hval]].
    - rewrite (_with_primary_filter m selection P HP Hval).
      rewrite (_with_primary_filter m
                 (with_server_descriptions selection _) P HP Hval). simpl.
      unfold with_server_descriptions. simpl. f_equal. f_equal.
      apply list_filter_filter_l.
      intros s Hk Hsec. specialize (Hk Hsec). lia.
    - unfold _with_primary. simpl. rewrite HP. cbv beta iota.
      by rewrite Hval. }
  split; [by apply Hstep |].
  rewrite Hstep by lia.
  apply _with_primary_filter; [done |]. by apply validate_returns_iff.
Qed.

Lemma with_primary_twice_witness :
  let out := with_server_descriptions with_primary_selection
               [the_primary; near_secondary; far_secondary; the_arbiter] in
  _with_primary 20 out = _with_primary 20 with_primary_selection ∧
  _with_primary 30 out = Return out.
Proof.
  apply (with_primary_twice 30 20 with_primary_selection
           (with_server_descriptions with_primary_selection
              [the_primary; near_secondary; far_secondary; the_arbiter])).
  - reflexivity.
  - lia.
Defined.

(** X5. Loosening the bound: when [select] returns for a bound [m1] other
    than zero, it returns for every bound [m2 >= m1] too, and the members
    returned for [m1] are among those returned for [m2], in the same
    order. *)
Theorem select_loosen {M : SelectionMethods}
    (m1 m2 : Z) (selection out1 : Selection) :
  m1 ≠ 0 → m1 ≤ m2 →
  select (Some m1) selection = Return out1 →
  ∃ out2, select (Some m2) selection = Return out2 ∧
          server_descriptions out1 `sublist_of` server_descriptions out2.
Proof.
  intros Hne Hle Hret.
  destruct (Z.eqb_spec m2 0) as [-> | Hne2].
  { exists selection. split; [done |].
    unfold select in Hret. destruct (m1 =? 0); [by injection Hret as <- |].
    destruct (primary selection) as [P |].
    - apply _with_primary_Return in Hret as (P' & _ & _ & ->).
      apply sublist_filter.
    - apply _no_primary_Return in Hret
        as [[_ ->] | (smax & srecent & _ & _ & _ & ->)];
        [apply sublist_nil_l | apply sublist_filter]. }
  unfold select in *.
  destruct (Z.eqb_spec m1 0) as [? | _]; [done |].
  destruct (Z.eqb_spec m2 0) as [? | _]; [done |].
  destruct (primary selection) as [P |] eqn:HP.
  - apply _with_primary_Return in Hret as (P' & HP' & Hfeasible & ->).
    rewrite HP in HP'. injection HP' as <-.
    eexists. split.
    + apply _with_primary_filter; [done |]. apply validate_returns_iff. lia.
    + simpl.
      rewrite <- (list_filter_filter_l
        (keeps_with_primary m1 (heartbeat_frequency selection) P)
        (keeps_with_primary m2 (heartbeat_frequency selection) P)).
      * apply sublist_filter.
      * intros s Hk Hsec. specialize (Hk Hsec). lia.
  - apply _no_primary_Return in Hret
      as [[Hnone ->] | (smax & srecent & Hsmax & Hsrecent & Hfeasible & ->)].
    + eexists. split; [| apply sublist_nil_l].
      unfold _no_primary. by rewrite Hnone.
    + eexists. split.
      * apply (_no_primary_filter m2 selection smax srecent); [done.. |].
        apply validate_returns_iff. lia.
      * simpl.
        rewrite <- (list_filter_filter_l
          (keeps_no_primary m1 (heartbeat_frequency selection) smax)
          (keeps_no_primary m2 (heartbeat_frequency selection) smax)).
        -- apply sublist_filter.
        -- intros s Hk Hsec. specialize (Hk Hsec). lia.
Qed.

Lemma select_loosen_witness :
  ∃ out2,
    select (M := first_greatest) (Some 45) no_primary_selection = Return out2 ∧
    [secondary_A; the_arbiter] `sublist_of` server_descriptions out2.
Proof.
  apply (select_loosen (M := first_greatest) 35 45 no_primary_selection
           (with_server_descriptions no_primary_selection
              [secondary_A; the_arbiter])).
  - lia.
  - lia.
  - reflexivity.
Defined.

(** ** The freshest secondary *)

(** X6. Without a primary, when [_no_primary] returns and the idle write
    period it validated against is not negative, every secondary with the
    greatest lastWriteDate is in the output: its staleness is the heartbeat
    frequency, which a feasible bound covers.  So the filter never leaves a
    selection that had a secondary without one. *)
Theorem no_primary_keeps_freshest
    {M : SelectionMethods} {MS : SelectionMethodsSpec M}
    (max_staleness : Z) (selection out : Selection) (S : ServerDescription) :
  _no_primary max_staleness selection = Return out →
  (∀ srecent, secondary_with_max_last_update_time selection = Some srecent →
     0 ≤ idle_write_period srecent) →
  greatest_secondary last_write_date selection (Some S) →
  S ∈ server_descriptions out.
Proof.
  intros Hret Hidle HS. pose proof HS as (Hin & Hsec & _).
  apply _no_primary_Return in Hret
    as [[Hnone _] | (smax & srecent & Hsmax & Hsrecent & Hfeasible & ->)].
  - by destruct (smax_None_no_secondary selection Hnone S Hin).
  - simpl. apply list_elem_of_filter. split; [| done]. intros _.
    pose proof (smax_greatest selection) as Hg. rewrite Hsmax in Hg.
    rewrite (greatest_secondary_key _ _ _ _ Hg HS).
    specialize (Hidle srecent Hsrecent). lia.
Qed.

Lemma no_primary_keeps_freshest_witness :
  secondary_A ∈
    server_descriptions
      (with_server_descriptions no_primary_selection
         [secondary_A; the_arbiter]).
Proof.
  apply (no_primary_keeps_freshest (M := first_greatest) 35
           no_primary_selection
           (with_server_descriptions no_primary_selection
              [secondary_A; the_arbiter])
           secondary_A).
  - reflexivity.
  - intros srecent Hsrecent. vm_compute in Hsrecent.
    injection Hsrecent as <-. simpl. lia.
  - exact (smax_greatest (M := first_greatest) no_primary_selection).
Defined.

(** X7. Filtering twice without a primary: when all secondaries of the
    selection have the same idle write period, and it is not negative, a
    second run of [_no_primary] with the same bound on the output of the
    first returns that output again. *)
Theorem no_primary_twice
    {M : SelectionMethods} {MS : SelectionMethodsSpec M}
    (max_staleness idle : Z) (selection out : Selection) :
  (∀ s, s ∈ server_descriptions selection → server_type s = RSSecondary →
        idle_write_period s = idle) →
  0 ≤ idle →
  _no_primary max_staleness selection = Return out →
  _no_primary max_staleness out = Return out.
Proof.
  intros Huniform Hidle Hret.
  apply _no_primary_Return in Hret
    as [[Hnone ->] | (smax & srecent & Hsmax & Hsrecent & Hfeasible & ->)].
  - unfold _no_primary. rewrite no_secondary_smax_None; [done |].
    intros s Hs. by apply elem_of_nil in Hs.
  - pose proof (smax_greatest selection) as Hg. rewrite Hsmax in Hg.
    pose proof (srecent_greatest selection) as Hr. rewrite Hsrecent in Hr.
    pose proof Hg as (Hin & Hsec & Hmax).
    destruct Hr as (Hrin & Hrsec & _).
    rewrite (Huniform srecent Hrin Hrsec) in Hfeasible.
    set (kept := filter
      (keeps_no_primary max_staleness (heartbeat_frequency selection) smax)
      (server_descriptions selection)).
    set (out := with_server_descriptions selection kept).
    assert (smax ∈ server_descriptions out) as Hin'.
    { apply list_elem_of_filter. split; [| done]. intros _. lia. }
    destruct (secondary_smax_Some out smax Hin' Hsec)
      as (smax' & Hsmax' & Hin2 & Hsec2 & Hmax2).
    destruct (secondary_srecent_Some out smax Hin' Hsec)
      as (srecent' & Hsrecent' & Hrin2 & Hrsec2 & _).
    apply list_elem_of_filter in Hin2 as [_ Hin2].
    apply list_elem_of_filter in Hrin2 as [_ Hrin2].
    assert (last_write_date smax' = last_write_date smax) as Hsame.
    { pose proof (Hmax smax' Hin2 Hsec2). pose proof (Hmax2 smax Hin' Hsec).
      lia. }
    rewrite (_no_primary_filter max_staleness out smax' srecent'
               Hsmax' Hsrecent').
    + subst out kept. unfold with_server_descriptions. simpl. do 2 f_equal.
      apply list_filter_filter_r.
      intros s Hk Hs. unfold keeps_no_primary in Hk.
      specialize (Hk Hs). lia.
    + apply validate_returns_iff. simpl.
      rewrite (Huniform srecent' Hrin2 Hrsec2). lia.
Qed.

Lemma no_primary_twice_witness :
  let out := with_server_descriptions no_primary_selection
               [secondary_A; the_arbiter] in
  _no_primary (M := first_greatest) 35 out = Return out.
Proof.
  apply (no_primary_twice (M := first_greatest) 35 10 no_primary_selection
           (with_server_descriptions no_primary_selection
              [secondary_A; the_arbiter])).
  - intros s Hs _. simpl in Hs. rewrite !elem_of_cons in Hs.
    destruct Hs as [-> | [-> | [-> | Hs]]]; try reflexivity.
    by apply elem_of_nil in Hs.
  - lia.
  - reflexivity.
Defined.

(** ** Clock origins *)





(** ** Objects *)



(** ** A bound that filters nothing *)

Lemma filter_id_iff {A : Type} (P : A → Prop) `{!∀ x, Decision (P x)}
    (l : list A) :
  filter P l = l ↔ ∀ x, x ∈ l → P x.
Proof.
  split.
  - intros Hid x Hx. destruct (decide (P x)) as [HP | HP]; [done |].
    pose proof (length_filter_lt P l x Hx HP) as Hlt.
    rewrite Hid in Hlt. lia.
  - induction l as [| y l IH]; intros Hall; [done |].
    rewrite filter_cons_True by (apply Hall, list_elem_of_here).
    f_equal. apply IH. intros x Hx. by apply Hall, list_elem_of_further.
Qed.

(** X11. [_with_primary] returns its input selection with all its members
    exactly when the selection has a primary, the bound is feasible for the
    primary's idle write period, and every secondary member's staleness is
    within the bound. *)
Theorem with_primary_returns_input_iff
    (max_staleness : Z) (selection : Selection) :
  _with_primary max_staleness selection = Return selection ↔
  ∃ P, primary selection = Some P ∧
       heartbeat_frequency selection + idle_write_period P ≤ max_staleness ∧
       ∀ s, s ∈ server_descriptions selection →
            server_type s = RSSecondary →
            (last_update_time s - last_write_date s) -
            (last_update_time P - last_write_date P) +
            heartbeat_frequency selection ≤ max_staleness.
Proof.
  split.
  - intros Hret.
    apply _with_primary_Return in Hret as (P & HP & Hfeasible & Hout).
    exists P. repeat split; [done.. |].
    apply (f_equal server_descriptions) in Hout. simpl in Hout.
    symmetry in Hout.
    intros s Hs Hsec. by apply (proj1 (filter_id_iff _ _) Hout s Hs).
  - intros (P & HP & Hfeasible & Hall).
    rewrite (_with_primary_filter max_staleness selection P HP)
      by by apply validate_returns_iff.
    rewrite (proj2 (filter_id_iff _ _)); [by destruct selection |].
    intros s Hs Hsec. by apply Hall.
Qed.
